(** * canvas/cmd/server: the entry point of the server

    A shallow embedding of [cmd/server/main.go]: configuration read from the
    environment, construction of the logger, and the shutdown coordination
    between the main flow and the one task started with [errgroup].

    Go values are modelled as follows.
    - [string] is a sequence of bytes: [String.string].
    - [int] is a 64 bit integer, kept as a [Z] inside its range.
    - [error] is [option error]: [None] is Go's [nil].
    - [*zap.Logger] is [option zap.Logger]: [None] is the nil pointer.
    - the process environment is a finite map from names to values. *)

From Stdlib Require Import ZArith String Ascii List Bool Lia.
From stdpp Require Import base option gmap strings list.

Local Open Scope Z_scope.
Local Open Scope string_scope.

(** Go's [error] values, identified by their message. *)
Definition error := string.

(** ** The part of package [strconv] the program calls *)

Module strconv.

(** [strconv.IntSize]: the size of [int] on the 64 bit targets. *)
Definition intSize : Z := 64.
Definition minInt : Z := - 2 ^ (intSize - 1).
Definition maxInt : Z := 2 ^ (intSize - 1) - 1.

Definition byte_of (c : ascii) : Z := Z.of_nat (nat_of_ascii c).

(** ['0' <= c && c <= '9'] *)
Definition isDigit (c : ascii) : bool :=
  ((48 <=? byte_of c) && (byte_of c <=? 57))%Z.

(** The digit loop: [n = n*10 + int(ch - '0')], a syntax error at the first
    byte that is not a decimal digit. *)
Fixpoint digits (s : string) (n : Z) : option Z :=
  match s with
  | EmptyString => Some n
  | String c s' =>
      if isDigit c then digits s' (n * 10 + (byte_of c - 48)) else None
  end.

(** An optional sign in front of the digits:
    [if s[0] == '+' { s = s[1:] } else if s[0] == '-' { neg = true; s = s[1:] }]. *)
Definition sign (s : string) : bool * string :=
  match s with
  | String c s' =>
      if Ascii.eqb c "+" then (false, s')
      else if Ascii.eqb c "-" then (true, s')
      else (false, s)
  | EmptyString => (false, s)
  end.

(** [strconv.Atoi]: [Some n] when it returns [(n, nil)], and [None] when it
    returns an error, which it does for the empty string, a sign alone, a
    byte that is not a decimal digit (syntax), or a value that does not fit
    an [int] (range). *)
Definition Atoi (s : string) : option Z :=
  let '(neg, body) := sign s in
  match body with
  | EmptyString => None
  | _ =>
      match digits body 0 with
      | None => None
      | Some un =>
          let n := if neg then - un else un in
          if ((minInt <=? n) && (n <=? maxInt))%Z then Some n else None
      end
  end.

End strconv.

(** ** Reading the configuration: [os.LookupEnv] and the two helpers *)

Module os.
(** [os.LookupEnv]: the value and [true] when the variable is present
    (an empty value is a value), the zero string and [false] otherwise. *)
Definition LookupEnv (environ : gmap string string) (name : string)
  : string * bool :=
  match environ !! name with
  | Some v => (v, true)
  | None => ("", false)
  end.
End os.

Definition getStringOrDefault (environ : gmap string string)
    (name defaultV : string) : string :=
  let '(v, ok) := os.LookupEnv environ name in
  if negb ok then defaultV else v.

Definition getIntOrDefault (environ : gmap string string)
    (name : string) (defaultV : Z) : Z :=
  let '(v, ok) := os.LookupEnv environ name in
  if negb ok then defaultV
  else
    match strconv.Atoi v with
    | None => defaultV
    | Some vAsInt => vAsInt
    end.

(** ** The part of package [zap] the program calls *)

Module zap.

(** The three preconfigured loggers of the library. *)
Inductive Profile := Production | Development | Nop.

(** [zap.String(key, val)] and [zap.Error(err)]. *)
Inductive Field :=
| String (key val : string)
| Error (err : error).

(** A logger: the profile it was built with and the fields added to it. *)
Record Logger := mkLogger { profile : Profile; context : list Field }.

(** [*zap.Logger]; [None] is the nil pointer. *)
Definition LoggerPtr := option Logger.

(** [zap.NewNop()] never fails and returns a logger. *)
Definition NewNop : Logger := mkLogger Nop [].

End zap.

(** ** The part of package [server] the program calls *)

Module server.

Record Options := mkOptions {
  Host : string;
  Log : zap.Logger;
  Port : Z
}.

(** [server.New] keeps the options. *)
Record Server := New { options : Options }.

End server.

(** ** What a run of the process depends on

    Everything outside [main.go] that decides what a run does: the process
    environment, the value the linker gave [release], what the two fallible
    constructors of zap return, and what the server's [Stop] returns. *)

Record World := mkWorld {
  environ : gmap string string;
  release : string;
  zapNewProduction : zap.LoggerPtr * option error;
  zapNewDevelopment : zap.LoggerPtr * option error;
  serverStop : option error
}.

(** A panic of the Go runtime ends the process; [Ok] is normal completion. *)
Inductive result (A : Type) :=
| Ok (a : A)
| Panic (msg : string).
Arguments Ok {A} a.
Arguments Panic {A} msg.

(** [log.With(fields...)]: with one field or more the library copies the
    logger its receiver points to and returns a pointer to the copy; a nil
    receiver makes that copy a nil pointer dereference. *)
Definition zap_With (log : zap.LoggerPtr) (fields : list zap.Field)
  : result zap.Logger :=
  match log with
  | None => Panic "invalid memory address or nil pointer dereference"
  | Some l => Ok (zap.mkLogger (zap.profile l) (zap.context l ++ fields))
  end.

(** The two signals [signal.NotifyContext] is asked to watch. *)
Inductive Signal := SIGTERM | SIGINT.

(** The actions of a run that the claims speak about, in the order they
    happen. *)
Inductive Event :=
| Println (args : list string)                     (* fmt.Println, to stdout *)
| Delivered (sig : Signal)                         (* the OS delivers a signal *)
| Go                                               (* eg.Go starts the task *)
| StopCalled                                       (* s.Stop() *)
| LogInfo (log : zap.Logger) (msg : string) (fields : list zap.Field)
| Sync (log : zap.Logger)                          (* the deferred log.Sync() *)
| Exit (code : Z).                                 (* os.Exit(code) *)

(** ** [createLogger] *)

Definition createLogger (w : World) (env : string)
  : zap.LoggerPtr * option error :=
  if String.eqb env "production" then zapNewProduction w
  else if String.eqb env "development" then zapNewDevelopment w
  else (Some zap.NewNop, None).

(** The constructor of the library that builds a given profile. *)
Definition zap_New (w : World) (p : zap.Profile)
  : zap.LoggerPtr * option error :=
  match p with
  | zap.Production => zapNewProduction w
  | zap.Development => zapNewDevelopment w
  | zap.Nop => (Some zap.NewNop, None)
  end.

(** The selection of the profile as the specification words it: a function
    of the environment name, to be compared with [createLogger]. *)
Definition spec_profile (env : string) : zap.Profile :=
  if decide (env = "production") then zap.Production
  else if decide (env = "development") then zap.Development
  else zap.Nop.

(** ** [start], lines 27 to 48: configuration, logger, server

    The three local variables read from the environment. *)

Definition logEnv (w : World) : string :=
  getStringOrDefault (environ w) "LOG_ENV" "development".

Definition host (w : World) : string :=
  getStringOrDefault (environ w) "HOST" "localhost".

Definition port (w : World) : Z :=
  getIntOrDefault (environ w) "PORT" 8080.

(** What [start] prints when [createLogger] returned an error. *)
Definition report (err : option error) : list Event :=
  match err with
  | Some e => [Println ["Error setting up the logger:"; e]]
  | None => []
  end.

(** The sequential first part of [start]: the events so far, and either the
    decorated logger and the server, or the panic that ended the process. *)
Definition start_prologue (w : World)
  : list Event * result (zap.Logger * server.Server) :=
  let '(log, err) := createLogger w (logEnv w) in
  let out := report err in
  match zap_With log [zap.String "release" (release w)] with
  | Panic msg => (out, Panic msg)
  | Ok log =>
      let s := server.New (server.mkOptions (host w) log (port w)) in
      (out, Ok (log, s))
  end.

(** ** [start], lines 50 to 67: the shutdown coordination

    Two flows run here: the main flow, and the task given to [eg.Go]. Each
    is at one of a few program points; a scheduler picks which one moves
    next, and the operating system may deliver a watched signal at any time
    while [signal.NotifyContext] is in force. *)

Inductive MainPC :=
| AtGo                       (* line 55: about to call eg.Go *)
| AtWait                     (* line 63: inside eg.Wait *)
| AtReturn (code : Z)        (* lines 64 and 67: return code *)
| Exited (code : Z).         (* line 23: os.Exit(code) has run *)

Inductive TaskPC :=
| NotStarted
| AtDone                     (* line 56: ctx.Done() *)
| AtStop                     (* line 57: s.Stop() *)
| AtLog (err : error)        (* line 58: log.Info(...) *)
| Returned (err : option error).   (* lines 59 and 61 *)

Record State := mkState {
  mainPC : MainPC;
  taskPC : TaskPC;
  cancelled : bool;          (* ctx has been cancelled *)
  trace : list Event
}.

Inductive Choice :=
| Deliver (sig : Signal)
| RunMain
| RunTask.

(** The state in which line 55 is reached: [ctx] is fresh, the task is not
    started. *)
Definition init : State := mkState AtGo NotStarted false [].

(** The status [start] returns for the error [eg.Wait] hands back. *)
Definition status (err : option error) : Z :=
  match err with
  | Some _ => 1
  | None => 0
  end.

(** One move. [None]: the chosen flow cannot move (it is blocked, has not
    started, or is over).

    - A delivered signal cancels [ctx].
    - The task evaluates [ctx.Done()]: the call returns the channel of the
      context and the value is dropped; line 56 has no receive from that
      channel, so the move does not look at [cancelled].
    - [eg.Wait] returns once the task has returned, with its error.
    - On return, the deferred calls run ([stop()], then [log.Sync()]) and
      [main] passes the status to [os.Exit]. *)
Definition step (w : World) (log : zap.Logger) (c : Choice) (st : State)
  : option State :=
  match c with
  | Deliver sig =>
      match mainPC st with
      | Exited _ => None
      | _ => Some (mkState (mainPC st) (taskPC st) true
                     (trace st ++ [Delivered sig]))
      end
  | RunMain =>
      match mainPC st with
      | AtGo => Some (mkState AtWait AtDone (cancelled st) (trace st ++ [Go]))
      | AtWait =>
          match taskPC st with
          | Returned err =>
              Some (mkState (AtReturn (status err)) (taskPC st)
                      (cancelled st) (trace st))
          | _ => None
          end
      | AtReturn code =>
          Some (mkState (Exited code) (taskPC st) true
                  (trace st ++ [Sync log; Exit code]))
      | Exited _ => None
      end
  | RunTask =>
      match taskPC st with
      | NotStarted => None
      | AtDone => Some (mkState (mainPC st) AtStop (cancelled st) (trace st))
      | AtStop =>
          Some (mkState (mainPC st)
                  (match serverStop w with
                   | Some err => AtLog err
                   | None => Returned None
                   end)
                  (cancelled st) (trace st ++ [StopCalled]))
      | AtLog err =>
          Some (mkState (mainPC st) (Returned (Some err)) (cancelled st)
                  (trace st ++
                     [LogInfo log "Error stopping server" [zap.Error err]]))
      | Returned _ => None
      end
  end.

(** A schedule is run move by move; it fails at a move that cannot be made. *)
Fixpoint run (w : World) (log : zap.Logger) (sched : list Choice) (st : State)
  : option State :=
  match sched with
  | [] => Some st
  | c :: sched' =>
      match step w log c st with
      | Some st' => run w log sched' st'
      | None => None
      end
  end.

(** ** [start] as a whole *)

Inductive Outcome :=
| Crashed (out : list Event) (msg : string)
| Running (out : list Event) (log : zap.Logger) (st : State).

Definition start (w : World) (sched : list Choice) : option Outcome :=
  match start_prologue w with
  | (out, Panic msg) => Some (Crashed out msg)
  | (out, Ok (log, _)) =>
      match run w log sched init with
      | Some st => Some (Running out log st)
      | None => None
      end
  end.

(** The exit status of the process, once [os.Exit] has run. *)
Definition exit_status (o : option Outcome) : option Z :=
  match o with
  | Some (Running _ _ st) =>
      match mainPC st with
      | Exited code => Some code
      | _ => None
      end
  | _ => None
  end.

(** Everything the process did, startup included. *)
Definition events (o : option Outcome) : list Event :=
  match o with
  | Some (Running out _ st) => out ++ trace st
  | Some (Crashed out _) => out
  | None => []
  end.

(** Counting the events of a kind. *)
Definition count (p : Event -> bool) (t : list Event) : nat :=
  length (List.filter p t).

Definition isStop (e : Event) : bool :=
  match e with StopCalled => true | _ => false end.

Definition isLog (e : Event) : bool :=
  match e with LogInfo _ _ _ => true | _ => false end.

Definition isPrintln (e : Event) : bool :=
  match e with Println _ => true | _ => false end.

Definition isDelivered (e : Event) : bool :=
  match e with Delivered _ => true | _ => false end.

Definition isExit (e : Event) : bool :=
  match e with Exit _ => true | _ => false end.

Arguments count : simpl never.

(** ** Base-10 numerals, as the specification speaks of them

    A numeral is an optional sign and one decimal digit or more; it denotes
    an [int] when its value is in the range of the type. *)

Inductive Sign := NoSign | Plus | Minus.

Definition is_digit (d : Z) : Prop := (0 <= d <= 9)%Z.

Definition digit_char (d : Z) : ascii := ascii_of_nat (Z.to_nat (48 + d)).

Fixpoint render (ds : list Z) : string :=
  match ds with
  | [] => EmptyString
  | d :: ds' => String.String (digit_char d) (render ds')
  end.

Definition numeral (sg : Sign) (ds : list Z) : string :=
  match sg with
  | NoSign => render ds
  | Plus => String.String "+" (render ds)
  | Minus => String.String "-" (render ds)
  end.

Definition value_from (n : Z) (ds : list Z) : Z :=
  fold_left (fun n d => n * 10 + d)%Z ds n.

Definition signed (sg : Sign) (n : Z) : Z :=
  match sg with
  | Minus => (- n)%Z
  | _ => n
  end.

(** [Base10 s n]: the string [s] is a base-10 numeral of the [int] [n]. *)
Definition Base10 (s : string) (n : Z) : Prop :=
  exists sg ds,
    ds <> [] /\ Forall is_digit ds /\ s = numeral sg ds /\
    n = signed sg (value_from 0 ds) /\
    (strconv.minInt <= n <= strconv.maxInt)%Z.

(** ** What holds at each program point of the coordination *)

Section Coordination.

Variable w : World.
Variable log : zap.Logger.

(** How many calls of [Stop] and of [log.Info] lie behind a program point
    of the task. *)
Definition task_stops (t : TaskPC) : nat :=
  match t with
  | NotStarted | AtDone | AtStop => 0
  | AtLog _ | Returned _ => 1
  end.

Definition task_logs (t : TaskPC) : nat :=
  match t with
  | Returned (Some _) => 1
  | _ => 0
  end.

Definition task_agrees (t : TaskPC) : Prop :=
  match t with
  | AtLog err => serverStop w = Some err
  | Returned r => serverStop w = r
  | _ => True
  end.

Definition main_agrees (m : MainPC) (t : TaskPC) : Prop :=
  match m with
  | AtGo => t = NotStarted
  | AtWait => t <> NotStarted
  | AtReturn code | Exited code =>
      t = Returned (serverStop w) /\ code = status (serverStop w)
  end.

Definition main_exits (m : MainPC) : nat :=
  match m with
  | Exited _ => 1
  | _ => 0
  end.

(** The one record the task may hand to the logger. *)
Definition stop_record (e : Event) : Prop :=
  match e with
  | LogInfo l msg fields =>
      l = log /\ msg = "Error stopping server" /\
      exists err, serverStop w = Some err /\ fields = [zap.Error err]
  | _ => True
  end.

Record Inv (st : State) : Prop := mkInv {
  inv_stops : count isStop (trace st) = task_stops (taskPC st);
  inv_logs : count isLog (trace st) = task_logs (taskPC st);
  inv_prints : count isPrintln (trace st) = 0%nat;
  inv_exits : count isExit (trace st) = main_exits (mainPC st);
  inv_task : task_agrees (taskPC st);
  inv_main : main_agrees (mainPC st) (taskPC st);
  inv_quiet : cancelled st = false -> count isDelivered (trace st) = 0%nat;
  inv_records : Forall stop_record (trace st)
}.

End Coordination.

(** ** Every run can be brought to its end

    From any reachable state, letting the task and then the main flow move,
    with no signal delivered, ends in [os.Exit]. *)

Definition task_rest (w : World) (t : TaskPC) : list Choice :=
  let after_stop :=
    match serverStop w with
    | Some _ => [RunTask]
    | None => []
    end in
  match t with
  | NotStarted => []
  | AtDone => RunTask :: RunTask :: after_stop
  | AtStop => RunTask :: after_stop
  | AtLog _ => [RunTask]
  | Returned _ => []
  end.

Definition finish (w : World) (st : State) : list Choice :=
  match mainPC st with
  | AtGo => (RunMain :: task_rest w AtDone ++ [RunMain; RunMain])%list
  | AtWait => (task_rest w (taskPC st) ++ [RunMain; RunMain])%list
  | AtReturn _ => [RunMain]
  | Exited _ => []
  end.

(** ** Worlds and schedules of the examples *)

(** Nothing is set in the environment, the constructors of zap succeed and
    [Stop] returns nil. *)
Definition w_default : World :=
  mkWorld ∅ "dev"
    (Some (zap.mkLogger zap.Production []), None)
    (Some (zap.mkLogger zap.Development []), None)
    None.

Definition w_port (v : string) : World :=
  mkWorld {[ "PORT" := v ]} "dev"
    (Some (zap.mkLogger zap.Production []), None)
    (Some (zap.mkLogger zap.Development []), None)
    None.

(** [Stop] returns an error. *)
Definition w_stop_fails : World :=
  mkWorld ∅ "dev"
    (Some (zap.mkLogger zap.Production []), None)
    (Some (zap.mkLogger zap.Development []), None)
    (Some "listener already closed").

(** LOG_ENV=production, and [zap.NewProduction] returns an error and no
    logger. *)
Definition w_logger_fails : World :=
  mkWorld {[ "LOG_ENV" := "production" ]} "dev"
    (None, Some "cannot open sink")
    (Some (zap.mkLogger zap.Development []), None)
    None.

(** LOG_ENV names no profile, and both constructors of zap would fail. *)
Definition w_staging : World :=
  mkWorld {[ "LOG_ENV" := "staging" ]} "v1.2"
    (None, Some "cannot open sink")
    (None, Some "cannot open sink")
    (Some "listener already closed").

(** No signal arrives and each flow moves as soon as it can; the second
    schedule has the move more that the task makes when [Stop] fails. *)
Definition quiet : list Choice :=
  [RunMain; RunTask; RunTask; RunMain; RunMain].

Definition quiet_logged : list Choice :=
  [RunMain; RunTask; RunTask; RunTask; RunMain; RunMain].

(** Two signals, one before the task starts and one while it runs. *)
Definition two_signals : list Choice :=
  [Deliver SIGINT; RunMain; RunTask; Deliver SIGTERM; RunTask; RunMain;
   RunMain].

(** ** What the environment can hold

    A variable has a name that is not empty and has no ['='] and no NUL
    byte in it, and a value with no NUL byte: [os.Setenv] refuses the
    others. *)

Definition isNul (c : ascii) : bool := Ascii.eqb c zero.

Definition settable_name (name : string) : bool :=
  negb (String.eqb name "") &&
  forallb (fun c => negb (Ascii.eqb c "=") && negb (isNul c))
    (list_ascii_of_string name).

Definition settable_value (v : string) : bool :=
  forallb (fun c => negb (isNul c)) (list_ascii_of_string v).

(** The schedule in which the signal [sig] arrives once the task has called
    [Stop], and both flows then run to the end. *)
Definition signal_after_stop (w : World) (sig : Signal) : list Choice :=
  ([RunMain; RunTask; RunTask; Deliver sig] ++
   match serverStop w with
   | Some _ => [RunTask]
   | None => []
   end ++
   [RunMain; RunMain])%list.

(** ** Runs without their signals

    What a run did apart from the signals it was sent, what a schedule asks
    of the program itself, and the events that lie behind each program
    point. *)

Definition program_events (t : list Event) : list Event :=
  List.filter (fun e => negb (isDelivered e)) t.

Definition isDeliver (c : Choice) : bool :=
  match c with Deliver _ => true | _ => false end.

Definition program_moves (sched : list Choice) : list Choice :=
  List.filter (fun c => negb (isDeliver c)) sched.

Definition task_events (log : zap.Logger) (t : TaskPC) : list Event :=
  match t with
  | NotStarted => []
  | AtDone | AtStop => [Go]
  | AtLog _ | Returned None => [Go; StopCalled]
  | Returned (Some err) =>
      [Go; StopCalled; LogInfo log "Error stopping server" [zap.Error err]]
  end.

Definition main_events (log : zap.Logger) (m : MainPC) : list Event :=
  match m with
  | Exited code => [Sync log; Exit code]
  | _ => []
  end.

(** The moves the program can still make. *)
Definition task_left (t : TaskPC) : nat :=
  match t with
  | NotStarted | AtDone => 3
  | AtStop => 2
  | AtLog _ => 1
  | Returned _ => 0
  end.

Definition moves_left (st : State) : nat :=
  match mainPC st with
  | AtGo => 6
  | AtWait => 2 + task_left (taskPC st)
  | AtReturn _ => 1 + task_left (taskPC st)
  | Exited _ => task_left (taskPC st)
  end.

(** Two states that differ in the signals received only. *)
Definition same_program (st1 st2 : State) : Prop :=
  mainPC st2 = mainPC st1 /\ taskPC st2 = taskPC st1 /\
  trace st2 = program_events (trace st1).

(** * Properties *)

(** ** The examples, run *)

Example atoi_9090 : strconv.Atoi "9090" = Some 9090.
Proof. reflexivity. Qed.

Example atoi_abc : strconv.Atoi "abc" = None.
Proof. reflexivity. Qed.

Example atoi_neg : strconv.Atoi "-17" = Some (-17).
Proof. reflexivity. Qed.

Example atoi_big : strconv.Atoi "9223372036854775808" = None.
Proof. reflexivity. Qed.

Example port_set :
  getIntOrDefault {[ "PORT" := "9090" ]} "PORT" 8080 = 9090.
Proof. vm_compute. reflexivity. Qed.

Example start_quiet : exit_status (start w_default quiet) = Some 0.
Proof. vm_compute. reflexivity. Qed.

Example start_quiet_events :
  events (start w_default quiet) =
    [Go; StopCalled;
     Sync (zap.mkLogger zap.Development [zap.String "release" "dev"]);
     Exit 0].
Proof. vm_compute. reflexivity. Qed.

(** ** [strconv.Atoi] reads exactly the base-10 numerals of an [int] *)

Section Numerals.

Lemma digit_char_byte (d : Z) :
  is_digit d -> strconv.byte_of (digit_char d) = (48 + d)%Z.
Proof.
  intros Hd. unfold strconv.byte_of, digit_char, is_digit in *.
  rewrite nat_ascii_embedding by lia. lia.
Qed.

Lemma digit_char_isDigit (d : Z) :
  is_digit d -> strconv.isDigit (digit_char d) = true.
Proof.
  intros Hd. unfold strconv.isDigit. rewrite (digit_char_byte d Hd).
  unfold is_digit in Hd. apply andb_true_iff. split; apply Z.leb_le; lia.
Qed.

Lemma digit_char_not_sign (d : Z) :
  is_digit d ->
  Ascii.eqb (digit_char d) "+" = false /\
  Ascii.eqb (digit_char d) "-" = false.
Proof.
  intros Hd. pose proof (digit_char_byte d Hd) as Hb.
  unfold is_digit in Hd.
  split; apply Ascii.eqb_neq; intros Heq; rewrite Heq in Hb.
  - change (strconv.byte_of "+") with 43%Z in Hb. lia.
  - change (strconv.byte_of "-") with 45%Z in Hb. lia.
Qed.

Lemma isDigit_char (c : ascii) :
  strconv.isDigit c = true ->
  is_digit (strconv.byte_of c - 48) /\
  digit_char (strconv.byte_of c - 48) = c.
Proof.
  unfold strconv.isDigit. intros H.
  apply andb_true_iff in H as [H1 H2].
  apply Z.leb_le in H1. apply Z.leb_le in H2.
  split; [unfold is_digit; lia |].
  unfold digit_char, strconv.byte_of in *.
  replace (48 + (Z.of_nat (nat_of_ascii c) - 48))%Z
    with (Z.of_nat (nat_of_ascii c)) by lia.
  rewrite Nat2Z.id. apply ascii_nat_embedding.
Qed.

(** The digit loop computes the value of the digits it is given. *)
Lemma digits_render (ds : list Z) : forall n,
  Forall is_digit ds ->
  strconv.digits (render ds) n = Some (value_from n ds).
Proof.
  induction ds as [|d ds IH]; intros n Hds; [reflexivity |].
  inversion Hds as [|? ? Hd Hds']; subst. cbn [render strconv.digits].
  rewrite (digit_char_isDigit d Hd), (digit_char_byte d Hd).
  replace (48 + d - 48)%Z with d by lia.
  unfold value_from in *. cbn [fold_left]. apply IH. assumption.
Qed.

(** And it accepts nothing but digits. *)
Lemma digits_inv (s : string) : forall n m,
  strconv.digits s n = Some m ->
  exists ds, Forall is_digit ds /\ s = render ds /\ m = value_from n ds.
Proof.
  induction s as [|c s IH]; intros n m H; cbn [strconv.digits] in H.
  - exists []. inversion H; subst. repeat split; constructor.
  - destruct (strconv.isDigit c) eqn:Hc; [|discriminate].
    destruct (isDigit_char c Hc) as [Hd Hch].
    destruct (IH _ _ H) as (ds & Hds & -> & ->).
    exists ((strconv.byte_of c - 48)%Z :: ds). repeat split.
    + constructor; assumption.
    + cbn [render]. rewrite Hch. reflexivity.
Qed.

Lemma render_nonempty (ds : list Z) : ds <> [] -> render ds <> EmptyString.
Proof. destruct ds; [congruence | discriminate]. Qed.

Lemma sign_numeral (sg : Sign) (ds : list Z) :
  ds <> [] -> Forall is_digit ds ->
  strconv.sign (numeral sg ds) =
    (match sg with Minus => true | _ => false end, render ds).
Proof.
  intros Hne Hds. destruct sg; cbn; try reflexivity.
  destruct ds as [|d ds]; [congruence |].
  inversion Hds as [|? ? Hd _]; subst. cbn [render strconv.sign].
  destruct (digit_char_not_sign d Hd) as [-> ->]. reflexivity.
Qed.

Lemma in_range (n : Z) :
  (strconv.minInt <= n <= strconv.maxInt)%Z <->
  ((strconv.minInt <=? n) && (n <=? strconv.maxInt))%Z = true.
Proof.
  rewrite andb_true_iff, !Z.leb_le. reflexivity.
Qed.

Lemma Atoi_numeral (s : string) (n : Z) :
  Base10 s n -> strconv.Atoi s = Some n.
Proof.
  intros (sg & ds & Hne & Hds & -> & -> & Hr).
  unfold strconv.Atoi. rewrite (sign_numeral sg ds Hne Hds).
  pose proof (render_nonempty ds Hne) as Hr0.
  destruct (render ds) as [|c r] eqn:Hren; [congruence |].
  rewrite <- Hren, (digits_render ds 0 Hds).
  apply in_range in Hr.
  destruct sg; cbn [signed] in Hr |- *; rewrite Hr; reflexivity.
Qed.

Lemma Atoi_inv (s : string) (n : Z) :
  strconv.Atoi s = Some n -> Base10 s n.
Proof.
  unfold strconv.Atoi. intros H.
  destruct (strconv.sign s) as [neg body] eqn:Hsign.
  assert (Hbody : body <> EmptyString).
  { intros ->. discriminate. }
  assert (H' : match strconv.digits body 0 with
               | Some un =>
                   let n := if neg then (- un)%Z else un in
                   if ((strconv.minInt <=? n) && (n <=? strconv.maxInt))%Z
                   then Some n else None
               | None => None
               end = Some n).
  { destruct body; [congruence | exact H]. }
  clear H. destruct (strconv.digits body 0) as [un|] eqn:Hdig; [|discriminate].
  cbv zeta in H'.
  destruct ((strconv.minInt <=? (if neg then - un else un)) &&
            ((if neg then - un else un) <=? strconv.maxInt))%Z eqn:Hr;
    [|discriminate].
  injection H' as <-. apply in_range in Hr.
  destruct (digits_inv _ _ _ Hdig) as (ds & Hds & Hren & ->).
  assert (Hne : ds <> []).
  { intros ->. cbn in Hren. congruence. }
  destruct s as [|c0 s0]; cbn [strconv.sign] in Hsign.
  { injection Hsign as _ <-. congruence. }
  destruct (Ascii.eqb c0 "+") eqn:Hplus.
  { apply Ascii.eqb_eq in Hplus. injection Hsign as <- <-.
    exists Plus, ds. cbn [numeral signed].
    split; [assumption|]. split; [assumption|].
    split; [congruence|]. split; [reflexivity | exact Hr]. }
  destruct (Ascii.eqb c0 "-") eqn:Hminus.
  { apply Ascii.eqb_eq in Hminus. injection Hsign as <- <-.
    exists Minus, ds. cbn [numeral signed].
    split; [assumption|]. split; [assumption|].
    split; [congruence|]. split; [reflexivity | exact Hr]. }
  injection Hsign as <- <-.
  exists NoSign, ds. cbn [numeral signed].
  split; [assumption|]. split; [assumption|].
  split; [congruence|]. split; [reflexivity | exact Hr].
Qed.

Lemma Atoi_Base10 (s : string) (n : Z) :
  strconv.Atoi s = Some n <-> Base10 s n.
Proof. split; [apply Atoi_inv | apply Atoi_numeral]. Qed.

Lemma Atoi_none (s : string) :
  strconv.Atoi s = None <-> (forall n, ~ Base10 s n).
Proof.
  split.
  - intros H n Hb. apply Atoi_numeral in Hb. congruence.
  - intros H. destruct (strconv.Atoi s) as [n|] eqn:Ha; [|reflexivity].
    exfalso. apply (H n), Atoi_inv, Ha.
Qed.

End Numerals.

(** ** Configuration *)

Lemma getStringOrDefault_lookup (env : gmap string string)
    (name defaultV : string) :
  getStringOrDefault env name defaultV =
    match env !! name with Some v => v | None => defaultV end.
Proof.
  unfold getStringOrDefault, os.LookupEnv. destruct (env !! name); reflexivity.
Qed.

Lemma getIntOrDefault_lookup (env : gmap string string)
    (name : string) (defaultV : Z) :
  getIntOrDefault env name defaultV =
    match env !! name with
    | Some v => match strconv.Atoi v with Some n => n | None => defaultV end
    | None => defaultV
    end.
Proof.
  unfold getIntOrDefault, os.LookupEnv. destruct (env !! name); reflexivity.
Qed.

(** C3. Each of the three variables resolves to the value the environment
    gives it when it is present (for PORT: when that value is a base-10
    numeral of an int, to the integer it denotes), and to its default
    otherwise: "development" for LOG_ENV, "localhost" for HOST, 8080 for
    PORT. PORT="abc" gives 8080 and PORT="9090" gives 9090. *)
Theorem config_resolution (w : World) :
  (forall v, environ w !! "LOG_ENV" = Some v -> logEnv w = v) /\
  (environ w !! "LOG_ENV" = None -> logEnv w = "development") /\
  (forall v, environ w !! "HOST" = Some v -> host w = v) /\
  (environ w !! "HOST" = None -> host w = "localhost") /\
  (forall v n, environ w !! "PORT" = Some v -> Base10 v n -> port w = n) /\
  (forall v, environ w !! "PORT" = Some v -> (forall n, ~ Base10 v n) ->
             port w = 8080%Z) /\
  (environ w !! "PORT" = None -> port w = 8080%Z) /\
  (environ w !! "PORT" = Some "abc" -> port w = 8080%Z) /\
  (environ w !! "PORT" = Some "9090" -> port w = 9090%Z).
Proof.
  unfold logEnv, host, port.
  rewrite !getStringOrDefault_lookup, getIntOrDefault_lookup.
  repeat split.
  - intros v ->. reflexivity.
  - intros ->. reflexivity.
  - intros v ->. reflexivity.
  - intros ->. reflexivity.
  - intros v n -> Hb. rewrite (Atoi_numeral v n Hb). reflexivity.
  - intros v -> Hb. apply Atoi_none in Hb. rewrite Hb. reflexivity.
  - intros ->. reflexivity.
  - intros ->. reflexivity.
  - intros ->. reflexivity.
Qed.

Lemma config_resolution_witness :
  port (w_port "9090") = 9090%Z /\ port (w_port "abc") = 8080%Z /\
  host (w_port "9090") = "localhost".
Proof.
  pose proof (config_resolution (w_port "9090")) as H1.
  pose proof (config_resolution (w_port "abc")) as H2.
  split; [|split].
  - apply H1. reflexivity.
  - apply H2. reflexivity.
  - apply H1. reflexivity.
Defined.

(** C8. The integer read from the environment is not checked against any
    range: every value that is a base-10 numeral of an int, negative ones
    and ones beyond the TCP ports included, is returned as it is; a missing
    or malformed value gives the default, never an error. *)
Theorem getIntOrDefault_no_validation (env : gmap string string)
    (name : string) (defaultV : Z) :
  (forall v n, env !! name = Some v -> Base10 v n ->
               getIntOrDefault env name defaultV = n) /\
  (forall v, env !! name = Some v -> (forall n, ~ Base10 v n) ->
             getIntOrDefault env name defaultV = defaultV) /\
  (env !! name = None -> getIntOrDefault env name defaultV = defaultV).
Proof.
  rewrite getIntOrDefault_lookup. repeat split.
  - intros v n -> Hb. rewrite (Atoi_numeral v n Hb). reflexivity.
  - intros v -> Hb. apply Atoi_none in Hb. rewrite Hb. reflexivity.
  - intros ->. reflexivity.
Qed.

Lemma getIntOrDefault_no_validation_witness :
  getIntOrDefault {[ "PORT" := "-1" ]} "PORT" 8080 = (-1)%Z /\
  getIntOrDefault {[ "PORT" := "70000" ]} "PORT" 8080 = 70000%Z /\
  getIntOrDefault {[ "PORT" := "80 " ]} "PORT" 8080 = 8080%Z /\
  getIntOrDefault ∅ "PORT" 8080 = 8080%Z.
Proof.
  split; [|split; [|split]].
  - apply (getIntOrDefault_no_validation {[ "PORT" := "-1" ]} "PORT" 8080)
      with (v := "-1"); [reflexivity | apply Atoi_inv; reflexivity].
  - apply (getIntOrDefault_no_validation {[ "PORT" := "70000" ]} "PORT" 8080)
      with (v := "70000"); [reflexivity | apply Atoi_inv; reflexivity].
  - apply (getIntOrDefault_no_validation {[ "PORT" := "80 " ]} "PORT" 8080)
      with (v := "80 "); [reflexivity | apply Atoi_none; reflexivity].
  - apply (getIntOrDefault_no_validation ∅ "PORT" 8080). reflexivity.
Defined.

(** C10. A string variable that is set to the empty string resolves to the
    empty string: the default is used only when the variable is absent. *)
Theorem getStringOrDefault_empty (env : gmap string string)
    (name defaultV : string) :
  env !! name = Some "" -> getStringOrDefault env name defaultV = "".
Proof.
  intros H. rewrite getStringOrDefault_lookup, H. reflexivity.
Qed.

Lemma getStringOrDefault_empty_witness :
  getStringOrDefault {[ "HOST" := "" ]} "HOST" "localhost" = "".
Proof.
  apply (getStringOrDefault_empty {[ "HOST" := "" ]} "HOST" "localhost").
  reflexivity.
Defined.

(** ** The logger *)

Lemma spec_profile_production (env : string) :
  spec_profile env = zap.Production <-> env = "production".
Proof.
  unfold spec_profile. repeat case_decide; subst; split; congruence.
Qed.

Lemma spec_profile_development (env : string) :
  spec_profile env = zap.Development <-> env = "development".
Proof.
  unfold spec_profile. repeat case_decide; subst; split; congruence.
Qed.

Lemma spec_profile_nop (env : string) :
  spec_profile env = zap.Nop <->
  env <> "production" /\ env <> "development".
Proof.
  unfold spec_profile.
  repeat case_decide; subst; split; try congruence; try tauto.
  all: intros [? ?]; congruence.
Qed.

(** C4. [createLogger] calls the constructor of exactly one profile, chosen
    by the environment name alone: production for "production", development
    for "development", and the no-op logger for every other name, the empty
    one included. *)
Theorem createLogger_profile (w : World) (env : string) :
  createLogger w env = zap_New w (spec_profile env) /\
  (env = "production" -> createLogger w env = zapNewProduction w) /\
  (env = "development" -> createLogger w env = zapNewDevelopment w) /\
  (env <> "production" -> env <> "development" ->
   createLogger w env = (Some zap.NewNop, None)) /\
  createLogger w "" = (Some zap.NewNop, None).
Proof.
  assert (Hsel : createLogger w env = zap_New w (spec_profile env)).
  { unfold createLogger, spec_profile.
    destruct (String.eqb_spec env "production") as [->|Hp].
    - reflexivity.
    - rewrite decide_False by assumption.
      destruct (String.eqb_spec env "development") as [->|Hd].
      + reflexivity.
      + rewrite decide_False by assumption. reflexivity. }
  split; [exact Hsel |]. repeat split.
  - intros ->. reflexivity.
  - intros ->. reflexivity.
  - intros Hp Hd. rewrite Hsel.
    assert (Hn : spec_profile env = zap.Nop) by (apply spec_profile_nop; auto).
    rewrite Hn. reflexivity.
Qed.

Lemma createLogger_profile_witness :
  createLogger w_default "staging" = (Some zap.NewNop, None) /\
  createLogger w_default "production" =
    (Some (zap.mkLogger zap.Production []), None).
Proof.
  split.
  - apply (createLogger_profile w_default "staging"); discriminate.
  - apply (createLogger_profile w_default "production"). reflexivity.
Defined.

(** ** The shutdown coordination: what holds in every reachable state *)

Lemma count_snoc (p : Event -> bool) (t : list Event) (e : Event) :
  count p (t ++ [e]) = (count p t + (if p e then 1 else 0))%nat.
Proof.
  unfold count. rewrite List.filter_app, length_app. cbn.
  destruct (p e); reflexivity.
Qed.

Lemma count_app (p : Event -> bool) (t1 t2 : list Event) :
  count p (t1 ++ t2) = (count p t1 + count p t2)%nat.
Proof. unfold count. rewrite List.filter_app, length_app. reflexivity. Qed.

Lemma count_cons (p : Event -> bool) (e : Event) (t : list Event) :
  count p (e :: t) = ((if p e then 1 else 0) + count p t)%nat.
Proof. unfold count. cbn. destruct (p e); reflexivity. Qed.

Lemma count_nil (p : Event -> bool) : count p [] = 0%nat.
Proof. reflexivity. Qed.

Lemma count_In (p : Event -> bool) (t : list Event) (e : Event) :
  In e t -> p e = true -> (1 <= count p t)%nat.
Proof.
  intros Hin Hp. unfold count.
  assert (Hf : In e (List.filter p t)) by (apply List.filter_In; auto).
  destruct (List.filter p t); [destruct Hf | cbn; lia].
Qed.

Section CoordinationInvariant.

Variable w : World.
Variable log : zap.Logger.

Lemma Inv_init : Inv w log init.
Proof. constructor; cbn; auto; discriminate. Qed.

Ltac counts :=
  rewrite ?count_app, ?count_cons, ?count_nil;
  cbn [isStop isLog isPrintln isExit isDelivered
       task_stops task_logs main_exits] in *.

Ltac records :=
  first [ assumption
        | apply Forall_app; split; [assumption | repeat constructor] ].

Lemma Inv_step (c : Choice) (st st' : State) :
  Inv w log st -> step w log c st = Some st' -> Inv w log st'.
Proof.
  intros [Hs Hl Hp He Ht Hm Hq Hr] Hstep.
  destruct st as [m t cd tr].
  cbn [trace taskPC mainPC cancelled] in *.
  destruct c; cbn [step trace taskPC mainPC cancelled] in Hstep.
  - (* a signal *)
    destruct m; try discriminate; injection Hstep as <-;
      constructor; cbn [trace taskPC mainPC cancelled]; counts;
      try lia; try assumption; try (intros Hc; discriminate Hc); records.
  - (* the main flow *)
    destruct m; try discriminate.
    + injection Hstep as <-. cbn [main_agrees] in Hm. subst t.
      constructor; cbn [trace taskPC mainPC cancelled]; counts;
        try lia; try exact I; try (cbn; discriminate); try records.
      intros Hc. rewrite (Hq Hc). reflexivity.
    + destruct t; try discriminate. injection Hstep as <-.
      cbn [task_agrees] in Ht. subst err.
      constructor; cbn [trace taskPC mainPC cancelled]; counts;
        try lia; try assumption; try reflexivity.
      cbn. auto.
    + injection Hstep as <-. destruct Hm as [-> ->].
      constructor; cbn [trace taskPC mainPC cancelled]; counts;
        try lia; try assumption; try discriminate.
      * cbn. auto.
      * records.
  - (* the task *)
    destruct t; try discriminate; injection Hstep as <-.
    + constructor; cbn [trace taskPC mainPC cancelled]; counts;
        try lia; try assumption; try exact I.
      destruct m; cbn [main_agrees] in Hm |- *; try discriminate;
        destruct Hm; discriminate.
    + destruct (serverStop w) as [e|] eqn:Hstop;
        constructor; cbn [trace taskPC mainPC cancelled]; counts;
        try lia; try exact Hstop; try records;
        try (intros Hc; rewrite (Hq Hc); reflexivity);
        destruct m; cbn [main_agrees] in Hm |- *; try discriminate;
        destruct Hm; discriminate.
    + constructor; cbn [trace taskPC mainPC cancelled]; counts.
      * lia.
      * lia.
      * lia.
      * lia.
      * exact Ht.
      * destruct m; cbn [main_agrees] in Hm |- *; try discriminate;
          destruct Hm; discriminate.
      * intros Hc. rewrite (Hq Hc). reflexivity.
      * apply Forall_app; split; [assumption |].
        constructor; [|constructor].
        cbn [stop_record]. repeat split. exists err. auto.
Qed.

Lemma Inv_run (sched : list Choice) : forall st st',
  Inv w log st -> run w log sched st = Some st' -> Inv w log st'.
Proof.
  induction sched as [|c sched IH]; intros st st' Hinv Hrun; cbn in Hrun.
  - injection Hrun as <-. exact Hinv.
  - destruct (step w log c st) as [st1|] eqn:Hstep; [|discriminate].
    apply (IH st1); [eapply Inv_step; eauto | exact Hrun].
Qed.

Lemma Inv_reachable (sched : list Choice) (st : State) :
  run w log sched init = Some st -> Inv w log st.
Proof. apply Inv_run, Inv_init. Qed.

End CoordinationInvariant.

(** Runs the schedule in the goal; [H] tells what [Stop] returns. *)
Ltac run_to_exit H :=
  cbn; rewrite ?H; cbn; eexists;
  split; [reflexivity |]; cbn [mainPC trace];
  split; [reflexivity |];
  rewrite ?count_app, ?count_cons, ?count_nil; cbn [isDelivered]; lia.

Lemma finish_exits (w : World) (log : zap.Logger) (st : State) :
  Inv w log st ->
  exists st',
    run w log (finish w st) st = Some st' /\
    mainPC st' = Exited (status (serverStop w)) /\
    count isDelivered (trace st') = count isDelivered (trace st).
Proof.
  intros [Hs Hl Hp He Ht Hm Hq Hr].
  destruct st as [m t cd tr]. cbn [trace taskPC mainPC cancelled] in *.
  unfold finish, task_rest. cbn [mainPC taskPC].
  destruct m; cbn [main_agrees] in Hm.
  - subst t. destruct (serverStop w) as [e|] eqn:Hstop; run_to_exit Hstop.
  - destruct t; try congruence; cbn [task_agrees] in Ht.
    + destruct (serverStop w) as [e|] eqn:Hstop; run_to_exit Hstop.
    + destruct (serverStop w) as [e|] eqn:Hstop; run_to_exit Hstop.
    + run_to_exit Ht.
    + subst err. run_to_exit Hs.
  - destruct Hm as [-> ->]. run_to_exit Hs.
  - destruct Hm as [-> ->]. cbn. eexists. repeat split.
Qed.

(** ** From [start] to the coordination *)

Lemma report_counts (err : option error) :
  count isStop (report err) = 0%nat /\
  count isLog (report err) = 0%nat /\
  count isExit (report err) = 0%nat /\
  count isDelivered (report err) = 0%nat.
Proof. destruct err; repeat split. Qed.

Lemma prologue_out (w : World) :
  fst (start_prologue w) = report (snd (createLogger w (logEnv w))).
Proof.
  unfold start_prologue.
  destruct (createLogger w (logEnv w)) as [[l|] err]; reflexivity.
Qed.

(** With a logger in hand the first part of [start] runs through: it prints
    the error, if there is one, and builds the server around the decorated
    logger. *)
Lemma prologue_continues (w : World) (l : zap.Logger) (err : option error) :
  createLogger w (logEnv w) = (Some l, err) ->
  let log := zap.mkLogger (zap.profile l)
               (zap.context l ++ [zap.String "release" (release w)]) in
  start_prologue w =
    (report err,
     Ok (log, server.New (server.mkOptions (host w) log (port w)))).
Proof. intros H. unfold start_prologue. rewrite H. reflexivity. Qed.

(** With a nil logger it ends at line 33. *)
Lemma prologue_nil (w : World) (err : option error) :
  createLogger w (logEnv w) = (None, err) ->
  exists msg, start_prologue w = (report err, Panic msg).
Proof. intros H. unfold start_prologue. rewrite H. eexists. reflexivity. Qed.

Lemma start_running (w : World) (sched : list Choice)
    (out : list Event) (log : zap.Logger) (st : State) :
  start w sched = Some (Running out log st) ->
  out = report (snd (createLogger w (logEnv w))) /\
  run w log sched init = Some st /\ Inv w log st.
Proof.
  unfold start. intros H. pose proof (prologue_out w) as Hout.
  destruct (start_prologue w) as [out' [[log' s]|msg]]; [|discriminate].
  destruct (run w log' sched init) as [st'|] eqn:Hrun; [|discriminate].
  injection H as <- <- <-. cbn in Hout.
  split; [exact Hout |]. split; [exact Hrun |].
  eapply Inv_reachable, Hrun.
Qed.

Lemma start_exited (w : World) (sched : list Choice) (c : Z) :
  exit_status (start w sched) = Some c ->
  exists out log st,
    start w sched = Some (Running out log st) /\ mainPC st = Exited c.
Proof.
  unfold exit_status. intros H.
  destruct (start w sched) as [[out msg|out log st]|]; try discriminate.
  destruct (mainPC st) eqn:Hm; try discriminate. injection H as ->.
  exists out, log, st. auto.
Qed.

Lemma events_count (w : World) (sched : list Choice) (p : Event -> bool) :
  count p (report (snd (createLogger w (logEnv w)))) = 0%nat ->
  count p (events (start w sched)) =
    match start w sched with
    | Some (Running _ _ st) => count p (trace st)
    | _ => 0%nat
    end.
Proof.
  intros H0. destruct (start w sched) as [[out msg|out log st]|] eqn:H.
  - cbn [events]. unfold start in H. pose proof (prologue_out w) as Hout.
    destruct (start_prologue w) as [out' [[log' s]|msg']].
    + destruct (run w log' sched init); discriminate.
    + injection H as <- <-. cbn in Hout. rewrite Hout. exact H0.
  - destruct (start_running _ _ _ _ _ H) as (-> & _ & _).
    cbn [events]. rewrite count_app, H0. reflexivity.
  - reflexivity.
Qed.

Lemma count_pos (p : Event -> bool) (t : list Event) :
  (1 <= count p t)%nat -> exists e, In e t /\ p e = true.
Proof.
  unfold count. intros H.
  destruct (List.filter p t) as [|e r] eqn:Hf; [cbn in H; lia |].
  exists e. apply List.filter_In. rewrite Hf. left. reflexivity.
Qed.

(** What is known of a run that has exited. *)
Lemma exited_run (w : World) (sched : list Choice) (c : Z) :
  exit_status (start w sched) = Some c ->
  exists out log st,
    start w sched = Some (Running out log st) /\
    Inv w log st /\
    mainPC st = Exited c /\
    taskPC st = Returned (serverStop w) /\
    c = status (serverStop w) /\
    count isStop (events (start w sched)) = 1%nat.
Proof.
  intros Hc.
  destruct (start_exited _ _ _ Hc) as (out & log & st & Hst & Hm).
  destruct (start_running _ _ _ _ _ Hst) as (_ & _ & Hinv).
  pose proof (inv_main _ _ _ Hinv) as Hmain. rewrite Hm in Hmain.
  destruct Hmain as [Ht ->].
  exists out, log, st.
  split; [exact Hst |]. split; [exact Hinv |]. split; [exact Hm |].
  split; [exact Ht |]. split; [reflexivity |].
  rewrite events_count by apply report_counts. rewrite Hst.
  rewrite (inv_stops _ _ _ Hinv), Ht. reflexivity.
Qed.

(** ** Shutdown *)

(** C1. The claim is that the task waits for a signal and that [Stop] is not
    called before one is delivered. Line 56 evaluates [ctx.Done()] and drops
    the channel it returns: the task moves past it whether or not [ctx] is
    cancelled, and in every world the run in which no signal is ever
    delivered gets to call [Stop], with [ctx] not cancelled. *)
Theorem stop_called_before_any_signal (w : World) (log : zap.Logger) :
  (forall m b t,
     step w log RunTask (mkState m AtDone b t) = Some (mkState m AtStop b t)) /\
  exists st,
    run w log [RunMain; RunTask; RunTask] init = Some st /\
    cancelled st = false /\
    count isDelivered (trace st) = 0%nat /\
    count isStop (trace st) = 1%nat /\
    In StopCalled (trace st).
Proof.
  split; [reflexivity |].
  eexists. split; [reflexivity |]. cbn [cancelled trace init app].
  repeat split. right. left. reflexivity.
Qed.

(** C2. The exit status is the image of what [Stop] returned: 0 when it
    returned nil, 1 when it returned an error; and a process that got its
    logger does reach that exit. *)
Theorem exit_status_maps_stop (w : World) :
  (forall sched c, exit_status (start w sched) = Some c ->
     (serverStop w = None -> c = 0%Z) /\
     (forall e, serverStop w = Some e -> c = 1%Z)) /\
  (forall l err, createLogger w (logEnv w) = (Some l, err) ->
     exists sched, exit_status (start w sched) = Some (status (serverStop w))).
Proof.
  split.
  - intros sched c H.
    destruct (exited_run _ _ _ H) as (_ & _ & _ & _ & _ & _ & _ & -> & _).
    split.
    + intros ->. reflexivity.
    + intros e ->. reflexivity.
  - intros l err Hl. pose proof (prologue_continues w l err Hl) as Hp.
    cbv zeta in Hp. exists (finish w init). unfold start. rewrite Hp.
    edestruct (finish_exits w) as (st' & Hrun & Hm & _);
      [apply Inv_init |].
    rewrite Hrun. cbn [exit_status]. rewrite Hm. reflexivity.
Qed.

Lemma exit_status_maps_stop_witness :
  (exists sched, exit_status (start w_default sched) = Some 0%Z) /\
  (exists sched, exit_status (start w_stop_fails sched) = Some 1%Z) /\
  (serverStop w_stop_fails = Some "listener already closed" -> 1 = 1)%Z.
Proof.
  split; [|split].
  - apply (proj2 (exit_status_maps_stop w_default)
             (zap.mkLogger zap.Development []) None).
    reflexivity.
  - apply (proj2 (exit_status_maps_stop w_stop_fails)
             (zap.mkLogger zap.Development []) None).
    reflexivity.
  - apply (proj1 (exit_status_maps_stop w_stop_fails) quiet_logged 1%Z).
    reflexivity.
Defined.


(** C6. The claim is that [Stop] is called once and that it is the first
    delivered signal that sets off this one shutdown attempt. The count
    holds, the cause does not: line 56 does not wait for [ctx], so the
    attempt is made on the program's own account. In every world, when the
    signal arrives after the task has passed line 57, the one call of [Stop]
    lies before the delivery, with no delivery before it, and the delivery
    is followed by no call of [Stop] at all, up to the exit. *)
Theorem signal_triggers_no_shutdown (w : World) (log : zap.Logger)
    (sig : Signal) :
  exists st post,
    run w log (signal_after_stop w sig) init = Some st /\
    mainPC st = Exited (status (serverStop w)) /\
    trace st = ([Go; StopCalled] ++ Delivered sig :: post)%list /\
    count isDelivered [Go; StopCalled] = 0%nat /\
    count isStop post = 0%nat /\
    count isStop (trace st) = 1%nat.
Proof.
  unfold signal_after_stop.
  destruct (serverStop w) as [e|] eqn:Hstop.
  - eexists. eexists. cbn. rewrite Hstop. cbn.
    split; [reflexivity |]. split; [reflexivity |].
    split; [reflexivity |]. repeat split.
  - eexists. eexists. cbn. rewrite Hstop. cbn.
    split; [reflexivity |]. split; [reflexivity |].
    split; [reflexivity |]. repeat split.
Qed.

(** X13. [Stop] is never called twice: there is at most one call in any run,
    whatever signals are delivered and however often, and exactly one in a
    run that has exited. *)
Theorem stop_called_once (w : World) (sched : list Choice) :
  (count isStop (events (start w sched)) <= 1)%nat /\
  (forall c, exit_status (start w sched) = Some c ->
     count isStop (events (start w sched)) = 1%nat).
Proof.
  rewrite events_count by apply report_counts. split.
  - destruct (start w sched) as [[out msg|out log st]|] eqn:H; try lia.
    destruct (start_running _ _ _ _ _ H) as (_ & _ & Hinv).
    rewrite (inv_stops _ _ _ Hinv). destruct (taskPC st); cbn; lia.
  - intros c Hc.
    destruct (exited_run _ _ _ Hc) as (out & log & st & Hst & _ & _ & _ & _ & H1).
    rewrite <- H1. symmetry. apply events_count, report_counts.
Qed.

Example start_two_signals :
  events (start w_default two_signals) =
    [Delivered SIGINT; Go; Delivered SIGTERM; StopCalled;
     Sync (zap.mkLogger zap.Development [zap.String "release" "dev"]);
     Exit 0].
Proof. vm_compute. reflexivity. Qed.

Lemma stop_called_once_witness :
  count isStop (events (start w_default two_signals)) = 1%nat /\
  (count isStop (events (start w_logger_fails quiet_logged)) <= 1)%nat.
Proof.
  split.
  - apply (proj2 (stop_called_once w_default two_signals) 0%Z).
    vm_compute. reflexivity.
  - apply (proj1 (stop_called_once w_logger_fails quiet_logged)).
Defined.

(** C7. When [Stop] returns an error, a run that has exited has handed the
    logger one record, the one carrying that error, has called [Stop] once
    and not again, has printed nothing during the shutdown, and has exited
    with status 1. *)
Theorem stop_failure_logged_once (w : World) (sched : list Choice)
    (e : error) (c : Z) :
  serverStop w = Some e ->
  exit_status (start w sched) = Some c ->
  c = 1%Z /\
  count isLog (events (start w sched)) = 1%nat /\
  (exists log,
     In (LogInfo log "Error stopping server" [zap.Error e])
        (events (start w sched))) /\
  (forall log msg fields,
     In (LogInfo log msg fields) (events (start w sched)) ->
     msg = "Error stopping server" /\ fields = [zap.Error e]) /\
  count isStop (events (start w sched)) = 1%nat /\
  (forall out log st, start w sched = Some (Running out log st) ->
     count isPrintln (trace st) = 0%nat).
Proof.
  intros Hstop Hc.
  destruct (start_exited _ _ _ Hc) as (out & log & st & Hst & Hm).
  destruct (start_running _ _ _ _ _ Hst) as (Hout & _ & Hinv).
  pose proof (inv_main _ _ _ Hinv) as Hmain. rewrite Hm in Hmain.
  destruct Hmain as [Ht ->].
  assert (Hlogs : count isLog (trace st) = 1%nat).
  { rewrite (inv_logs _ _ _ Hinv), Ht, Hstop. reflexivity. }
  assert (Hrec : forall l msg fields,
             In (LogInfo l msg fields) (trace st) ->
             l = log /\ msg = "Error stopping server" /\
             fields = [zap.Error e]).
  { intros l msg fields Hin.
    pose proof (inv_records _ _ _ Hinv) as Hall.
    rewrite List.Forall_forall in Hall. specialize (Hall _ Hin).
    cbn [stop_record] in Hall.
    destruct Hall as (-> & -> & e' & He' & ->).
    rewrite Hstop in He'. injection He' as <-. auto. }
  assert (Hev : forall l msg fields,
             In (LogInfo l msg fields) (events (start w sched)) ->
             In (LogInfo l msg fields) (trace st)).
  { intros l msg fields Hin. rewrite Hst in Hin. cbn [events] in Hin.
    apply in_app_or in Hin as [Hin | Hin]; [|exact Hin].
    rewrite Hout in Hin.
    destruct (snd (createLogger w (logEnv w))); cbn in Hin;
      [destruct Hin as [Hin | []]; discriminate | destruct Hin]. }
  split; [rewrite Hstop; reflexivity |].
  split; [rewrite events_count by apply report_counts; rewrite Hst;
          exact Hlogs |].
  split.
  { destruct (count_pos isLog (trace st)) as (ev & Hin & Hp); [lia |].
    destruct ev; try discriminate.
    destruct (Hrec _ _ _ Hin) as (-> & -> & ->).
    exists log. rewrite Hst. cbn [events]. apply in_or_app. right. exact Hin. }
  split.
  { intros l msg fields Hin. apply Hev, Hrec in Hin. tauto. }
  split.
  { destruct (exited_run _ _ _ Hc) as (_ & _ & _ & _ & _ & _ & _ & _ & H1).
    exact H1. }
  intros out' log' st' Hst'. rewrite Hst in Hst'. injection Hst' as <- <- <-.
  apply (inv_prints _ _ _ Hinv).
Qed.

Lemma stop_failure_logged_once_witness :
  count isLog (events (start w_stop_fails quiet_logged)) = 1%nat /\
  exit_status (start w_stop_fails quiet_logged) = Some 1%Z.
Proof.
  split.
  - apply (stop_failure_logged_once w_stop_fails quiet_logged
             "listener already closed" 1%Z); reflexivity.
  - reflexivity.
Defined.

(** C9. The main flow does not get past [eg.Wait] before the task has
    returned: in [eg.Wait] it cannot move while the task is still running,
    and whenever it is returning or has exited, the task has returned and
    the status is the one of the task's error. *)
Theorem exit_after_task (w : World) (sched : list Choice)
    (out : list Event) (log : zap.Logger) (st : State) :
  start w sched = Some (Running out log st) ->
  (mainPC st = AtWait -> (forall r, taskPC st <> Returned r) ->
   step w log RunMain st = None) /\
  (forall c, mainPC st = AtReturn c \/ mainPC st = Exited c ->
     taskPC st = Returned (serverStop w) /\ c = status (serverStop w)) /\
  ((1 <= count isExit (trace st))%nat -> exists r, taskPC st = Returned r).
Proof.
  intros Hst. destruct (start_running _ _ _ _ _ Hst) as (_ & _ & Hinv).
  pose proof (inv_main _ _ _ Hinv) as Hmain.
  pose proof (inv_exits _ _ _ Hinv) as Hexits.
  split; [|split].
  - intros Hm Hr. unfold step. rewrite Hm.
    destruct (taskPC st) as [| | | |r]; try reflexivity.
    exfalso. apply (Hr r). reflexivity.
  - intros c [Hm | Hm]; rewrite Hm in Hmain; exact Hmain.
  - intros Hex. rewrite Hexits in Hex.
    destruct (mainPC st); cbn in Hex; try lia.
    destruct Hmain as [-> _]. eexists. reflexivity.
Qed.

Lemma exit_after_task_witness :
  step w_default (zap.mkLogger zap.Development [zap.String "release" "dev"])
    RunMain (mkState AtWait AtDone false [Go]) = None.
Proof.
  apply (exit_after_task w_default [RunMain]
           [] (zap.mkLogger zap.Development [zap.String "release" "dev"])
           (mkState AtWait AtDone false [Go])).
  - reflexivity.
  - reflexivity.
  - intros r. discriminate.
Defined.


(** * Further properties of the code *)

(** ** [getIntOrDefault]: what [strconv.Atoi] makes of a numeral *)

Lemma Atoi_of_numeral (sg : Sign) (ds : list Z) :
  ds <> [] -> Forall is_digit ds ->
  strconv.Atoi (numeral sg ds) =
    let n := signed sg (value_from 0 ds) in
    if ((strconv.minInt <=? n) && (n <=? strconv.maxInt))%Z
    then Some n else None.
Proof.
  intros Hne Hds. unfold strconv.Atoi.
  rewrite (sign_numeral sg ds Hne Hds).
  pose proof (render_nonempty ds Hne) as Hr0.
  destruct (render ds) as [|c r] eqn:Hren; [congruence |].
  rewrite <- Hren, (digits_render ds 0 Hds).
  destruct sg; reflexivity.
Qed.

Lemma digits_stop (s1 : string) (c : ascii) (s2 : string) : forall n,
  strconv.isDigit c = false ->
  strconv.digits (s1 ++ String.String c s2) n = None.
Proof.
  induction s1 as [|c1 s1 IH]; intros n Hc.
  - change (strconv.digits (String.String c s2) n = None).
    cbn [strconv.digits]. rewrite Hc. reflexivity.
  - change (strconv.digits (String.String c1 (s1 ++ String.String c s2)) n
            = None).
    cbn [strconv.digits].
    destruct (strconv.isDigit c1); [apply IH; exact Hc | reflexivity].
Qed.

Lemma Atoi_first_byte (c : ascii) (s : string) :
  strconv.isDigit c = false -> c <> "+"%char -> c <> "-"%char ->
  strconv.Atoi (String.String c s) = None.
Proof.
  intros Hc Hp Hm. unfold strconv.Atoi. cbn [strconv.sign].
  apply Ascii.eqb_neq in Hp. apply Ascii.eqb_neq in Hm.
  rewrite Hp, Hm. cbn [strconv.digits]. rewrite Hc. reflexivity.
Qed.

Lemma Atoi_later_byte (c0 : ascii) (s1 : string) (c : ascii) (s2 : string) :
  strconv.isDigit c = false ->
  strconv.Atoi (String.String c0 (s1 ++ String.String c s2)) = None.
Proof.
  intros Hc. unfold strconv.Atoi. cbn [strconv.sign].
  assert (Hbody : forall neg : bool,
    match s1 ++ String.String c s2 with
    | EmptyString => None
    | _ =>
        match strconv.digits (s1 ++ String.String c s2) 0 with
        | None => None
        | Some un =>
            let n := if neg then (- un)%Z else un in
            if ((strconv.minInt <=? n) && (n <=? strconv.maxInt))%Z
            then Some n else None
        end
    end = None).
  { intros neg. rewrite (digits_stop s1 c s2 0 Hc).
    destruct (s1 ++ String.String c s2); reflexivity. }
  destruct (Ascii.eqb c0 "+"); [exact (Hbody false) |].
  destruct (Ascii.eqb c0 "-"); [exact (Hbody true) |].
  change (String.String c0 (s1 ++ String.String c s2))
    with (String.String c0 s1 ++ String.String c s2).
  rewrite (digits_stop (String.String c0 s1) c s2 0 Hc). reflexivity.
Qed.

(** X1. What [getIntOrDefault] returns is the default or the integer that
    [strconv.Atoi] reads from the value of the variable, a base-10 numeral
    of that integer, and nothing else; with a default that is an int it is
    therefore an int, whatever the environment holds. *)
Theorem getIntOrDefault_in_range (env : gmap string string)
    (name : string) (defaultV : Z) :
  (strconv.minInt <= defaultV <= strconv.maxInt)%Z ->
  (getIntOrDefault env name defaultV = defaultV \/
   exists v,
     env !! name = Some v /\
     strconv.Atoi v = Some (getIntOrDefault env name defaultV) /\
     Base10 v (getIntOrDefault env name defaultV)) /\
  (strconv.minInt <= getIntOrDefault env name defaultV <= strconv.maxInt)%Z.
Proof.
  intros Hd. rewrite getIntOrDefault_lookup.
  destruct (env !! name) as [v|]; [|split; [left; reflexivity | exact Hd]].
  destruct (strconv.Atoi v) as [n|] eqn:Ha;
    [|split; [left; reflexivity | exact Hd]].
  pose proof (Atoi_inv v n Ha) as Hb. split.
  - right. exists v. auto.
  - destruct Hb as (sg & ds & _ & _ & _ & _ & Hr). exact Hr.
Qed.

Lemma getIntOrDefault_in_range_witness :
  (getIntOrDefault {[ "PORT" := "70000" ]} "PORT" 8080 = 8080%Z \/
   exists v,
     ({[ "PORT" := "70000" ]} : gmap string string) !! "PORT" = Some v /\
     strconv.Atoi v =
       Some (getIntOrDefault {[ "PORT" := "70000" ]} "PORT" 8080) /\
     Base10 v (getIntOrDefault {[ "PORT" := "70000" ]} "PORT" 8080)) /\
  (strconv.minInt
   <= getIntOrDefault {[ "PORT" := "70000" ]} "PORT" 8080
   <= strconv.maxInt)%Z.
Proof.
  apply (getIntOrDefault_in_range {[ "PORT" := "70000" ]} "PORT" 8080).
  vm_compute. split; discriminate.
Defined.

(** X2. A numeral whose value does not fit an int is not an error and is not
    cut to the range: [getIntOrDefault] returns the default. *)
Theorem getIntOrDefault_overflow (env : gmap string string)
    (name : string) (defaultV : Z) (sg : Sign) (ds : list Z) :
  env !! name = Some (numeral sg ds) ->
  ds <> [] -> Forall is_digit ds ->
  ~ (strconv.minInt <= signed sg (value_from 0 ds) <= strconv.maxInt)%Z ->
  getIntOrDefault env name defaultV = defaultV.
Proof.
  intros Hv Hne Hds Hout.
  rewrite getIntOrDefault_lookup, Hv, (Atoi_of_numeral sg ds Hne Hds).
  cbv zeta.
  destruct ((strconv.minInt <=? signed sg (value_from 0 ds)) &&
            (signed sg (value_from 0 ds) <=? strconv.maxInt))%Z eqn:Hr;
    [|reflexivity].
  apply in_range in Hr. contradiction.
Qed.

Lemma getIntOrDefault_overflow_witness :
  getIntOrDefault {[ "PORT" := "9223372036854775808" ]} "PORT" 8080 = 8080%Z.
Proof.
  apply (getIntOrDefault_overflow {[ "PORT" := "9223372036854775808" ]}
           "PORT" 8080 NoSign
           [9;2;2;3;3;7;2;0;3;6;8;5;4;7;7;5;8;0;8]%Z).
  - reflexivity.
  - discriminate.
  - repeat constructor; unfold is_digit; lia.
  - vm_compute. intros [_ H]. apply H. reflexivity.
Defined.

(** X3. Nothing but an optional sign and decimal digits is read: the empty
    value, a sign alone, a first byte that is neither a sign nor a digit,
    and any later byte that is not a digit (a blank, a line end, an
    underscore, a second sign) each give the default. *)
Theorem getIntOrDefault_malformed (env : gmap string string)
    (name : string) (defaultV : Z) (v : string) :
  env !! name = Some v ->
  v = "" \/ v = "+" \/ v = "-" \/
  (exists c s, v = String.String c s /\ strconv.isDigit c = false /\
               c <> "+"%char /\ c <> "-"%char) \/
  (exists c0 s1 c s2, v = String.String c0 (s1 ++ String.String c s2) /\
                      strconv.isDigit c = false) ->
  getIntOrDefault env name defaultV = defaultV.
Proof.
  intros Hv Hbad. rewrite getIntOrDefault_lookup, Hv.
  assert (Ha : strconv.Atoi v = None).
  { destruct Hbad as [-> | [-> | [-> | [H | H]]]]; try reflexivity.
    - destruct H as (c & s & -> & Hc & Hp & Hm).
      apply Atoi_first_byte; assumption.
    - destruct H as (c0 & s1 & c & s2 & -> & Hc).
      apply Atoi_later_byte; assumption. }
  rewrite Ha. reflexivity.
Qed.

Lemma getIntOrDefault_malformed_witness :
  getIntOrDefault {[ "PORT" := "8080 " ]} "PORT" 80 = 80%Z /\
  getIntOrDefault {[ "PORT" := "" ]} "PORT" 80 = 80%Z.
Proof.
  split.
  - apply (getIntOrDefault_malformed {[ "PORT" := "8080 " ]} "PORT" 80
             "8080 "); [reflexivity |].
    right; right; right; right.
    exists "8"%char, "080", " "%char, "". split; reflexivity.
  - apply (getIntOrDefault_malformed {[ "PORT" := "" ]} "PORT" 80 "");
      [reflexivity | left; reflexivity].
Defined.

(** X4. A plus sign and leading zeros do not change the integer read: the
    numerals [+ds] and [0ds] resolve as [ds] does. *)
Theorem getIntOrDefault_plus_zeros (env : gmap string string)
    (name : string) (defaultV : Z) (ds : list Z) :
  ds <> [] -> Forall is_digit ds ->
  getIntOrDefault (<[name := numeral Plus ds]> env) name defaultV =
    getIntOrDefault (<[name := numeral NoSign ds]> env) name defaultV /\
  getIntOrDefault (<[name := numeral NoSign (0%Z :: ds)]> env) name defaultV =
    getIntOrDefault (<[name := numeral NoSign ds]> env) name defaultV.
Proof.
  intros Hne Hds. rewrite !getIntOrDefault_lookup, !lookup_insert_eq.
  assert (Hds0 : Forall is_digit (0%Z :: ds)).
  { constructor; [unfold is_digit; lia | exact Hds]. }
  rewrite (Atoi_of_numeral Plus ds Hne Hds).
  rewrite (Atoi_of_numeral NoSign ds Hne Hds).
  rewrite (Atoi_of_numeral NoSign (0%Z :: ds)) by (congruence || exact Hds0).
  split; reflexivity.
Qed.

Lemma getIntOrDefault_plus_zeros_witness :
  getIntOrDefault (<[ "PORT" := "+8080" ]> ∅) "PORT" 80 =
    getIntOrDefault (<[ "PORT" := "8080" ]> ∅) "PORT" 80 /\
  getIntOrDefault (<[ "PORT" := "08080" ]> ∅) "PORT" 80 =
    getIntOrDefault (<[ "PORT" := "8080" ]> ∅) "PORT" 80.
Proof.
  apply (getIntOrDefault_plus_zeros ∅ "PORT" 80 [8;0;8;0]%Z).
  - discriminate.
  - repeat constructor; unfold is_digit; lia.
Defined.

(** ** The environment: one variable at a time *)

(** X5. Each helper reads the one variable it is asked for, among the
    variables an environment can hold. Setting a variable makes its value
    the one read: the string itself, and for an integer the number the
    value is a base-10 numeral of, or the default when it is none.
    Unsetting it brings the default back, and setting or unsetting any
    other variable changes nothing. *)
Theorem config_reads_one_variable (env : gmap string string)
    (name other v : string) (defaultS : string) (defaultI : Z) :
  settable_name name = true -> settable_name other = true ->
  settable_value v = true ->
  name <> other ->
  getStringOrDefault (<[name := v]> env) name defaultS = v /\
  (forall n, Base10 v n ->
     getIntOrDefault (<[name := v]> env) name defaultI = n) /\
  ((forall n, ~ Base10 v n) ->
     getIntOrDefault (<[name := v]> env) name defaultI = defaultI) /\
  getStringOrDefault (delete name env) name defaultS = defaultS /\
  getIntOrDefault (delete name env) name defaultI = defaultI /\
  getStringOrDefault (<[other := v]> env) name defaultS =
    getStringOrDefault env name defaultS /\
  getIntOrDefault (<[other := v]> env) name defaultI =
    getIntOrDefault env name defaultI /\
  getStringOrDefault (delete other env) name defaultS =
    getStringOrDefault env name defaultS /\
  getIntOrDefault (delete other env) name defaultI =
    getIntOrDefault env name defaultI.
Proof.
  intros _ _ _ Hne.
  rewrite !getStringOrDefault_lookup, !getIntOrDefault_lookup.
  rewrite !lookup_insert_eq, !lookup_delete_eq.
  rewrite !lookup_insert_ne, !lookup_delete_ne by congruence.
  split; [reflexivity |].
  split; [intros n Hb; rewrite (Atoi_numeral v n Hb); reflexivity |].
  split; [intros Hb; apply Atoi_none in Hb; rewrite Hb; reflexivity |].
  repeat split.
Qed.

Lemma config_reads_one_variable_witness :
  getStringOrDefault (<[ "PORT" := "9090" ]> ∅) "PORT" "none" = "9090" /\
  getIntOrDefault (<[ "PORT" := "9090" ]> ∅) "PORT" 8080 = 9090%Z /\
  getIntOrDefault (<[ "HOST" := "9090" ]> ∅) "PORT" 8080 =
    getIntOrDefault ∅ "PORT" 8080.
Proof.
  pose proof (config_reads_one_variable ∅ "PORT" "HOST" "9090" "none" 8080
                eq_refl eq_refl eq_refl) as H.
  destruct H as (H1 & H2 & _ & _ & _ & _ & H7 & _); [discriminate |].
  split; [exact H1 |]. split; [|exact H7].
  apply H2. apply Atoi_inv. reflexivity.
Defined.

(** ** The logger [start] builds *)

(** X6. With LOG_ENV absent the logger is the one of [zap.NewDevelopment],
    the default name being "development"; with LOG_ENV set to the empty
    string it is the no-op logger. *)
Theorem default_logger (w : World) :
  (environ w !! "LOG_ENV" = None ->
   createLogger w (logEnv w) = zapNewDevelopment w) /\
  (environ w !! "LOG_ENV" = Some "" ->
   createLogger w (logEnv w) = (Some zap.NewNop, None)).
Proof.
  unfold logEnv. rewrite getStringOrDefault_lookup.
  split; intros ->; reflexivity.
Qed.

Lemma default_logger_witness :
  createLogger w_default (logEnv w_default) =
    (Some (zap.mkLogger zap.Development []), None).
Proof. apply (default_logger w_default). reflexivity. Defined.

Lemma count_zero_filter (p : Event -> bool) (t : list Event) :
  count p t = 0%nat -> List.filter p t = [].
Proof. unfold count. destruct (List.filter p t); [reflexivity | discriminate]. Qed.

Lemma start_cases (w : World) (sched : list Choice) :
  start w sched <> None ->
  let out := report (snd (createLogger w (logEnv w))) in
  (exists msg, start w sched = Some (Crashed out msg)) \/
  (exists log st, start w sched = Some (Running out log st) /\
                  Inv w log st).
Proof.
  intros Hs. cbv zeta.
  destruct (start w sched) as [[out msg|out log st]|] eqn:H; [| |congruence].
  - left. exists msg. f_equal. f_equal.
    unfold start in H. pose proof (prologue_out w) as Hout.
    destruct (start_prologue w) as [out' [[log' s]|msg']].
    + destruct (run w log' sched init); discriminate.
    + injection H as <- <-. exact Hout.
  - right. destruct (start_running _ _ _ _ _ H) as (-> & _ & Hinv).
    exists log, st. auto.
Qed.

(** X7. All that [start] ever prints to standard output is the error of
    [createLogger]: one line when there is an error, nothing when there is
    none, in every run. *)
Theorem start_prints_logger_error (w : World) (sched : list Choice) :
  start w sched <> None ->
  List.filter isPrintln (events (start w sched)) =
    match snd (createLogger w (logEnv w)) with
    | Some e => [Println ["Error setting up the logger:"; e]]
    | None => []
    end.
Proof.
  intros Hs. destruct (start_cases w sched Hs) as [[msg H] | (log & st & H & Hinv)];
    rewrite H; cbn [events].
  - destruct (snd (createLogger w (logEnv w))); reflexivity.
  - rewrite List.filter_app.
    rewrite (count_zero_filter _ _ (inv_prints _ _ _ Hinv)), app_nil_r.
    destruct (snd (createLogger w (logEnv w))); reflexivity.
Qed.

Lemma start_prints_logger_error_witness :
  List.filter isPrintln (events (start w_logger_fails quiet)) =
    [Println ["Error setting up the logger:"; "cannot open sink"]] /\
  List.filter isPrintln (events (start w_stop_fails quiet_logged)) = [].
Proof.
  split.
  - apply (start_prints_logger_error w_logger_fails quiet). discriminate.
  - apply (start_prints_logger_error w_stop_fails quiet_logged). discriminate.
Defined.

Lemma run_app (w : World) (log : zap.Logger) (s1 s2 : list Choice) :
  forall st,
    run w log (s1 ++ s2) st =
      match run w log s1 st with
      | Some st' => run w log s2 st'
      | None => None
      end.
Proof.
  induction s1 as [|c s1 IH]; intros st; cbn [run app]; [reflexivity |].
  destruct (step w log c st); [apply IH | reflexivity].
Qed.

(** X8. When LOG_ENV is set to a name other than "production" and
    "development", the constructors of zap are not called: whatever they
    would return, [start] does not panic, prints nothing, and can run to its
    exit. *)
Theorem start_with_nop_logger (w : World) (v : string) :
  environ w !! "LOG_ENV" = Some v ->
  v <> "production" -> v <> "development" ->
  (forall sched out msg, start w sched <> Some (Crashed out msg)) /\
  (forall sched, List.filter isPrintln (events (start w sched)) = []) /\
  (exists sched, exit_status (start w sched) = Some (status (serverStop w))).
Proof.
  intros Hv Hp Hd.
  assert (Hlog : createLogger w (logEnv w) = (Some zap.NewNop, None)).
  { unfold logEnv. rewrite getStringOrDefault_lookup, Hv.
    unfold createLogger.
    destruct (String.eqb_spec v "production"); [contradiction |].
    destruct (String.eqb_spec v "development"); [contradiction |].
    reflexivity. }
  pose proof (prologue_continues w _ _ Hlog) as Hpro. cbv zeta in Hpro.
  split; [|split].
  - intros sched out msg. unfold start. rewrite Hpro.
    destruct (run w _ sched init); discriminate.
  - intros sched. unfold start. rewrite Hpro.
    destruct (run w _ sched init) as [st|] eqn:Hrun; [|reflexivity].
    cbn [events report app].
    apply count_zero_filter.
    pose proof (Inv_reachable w _ sched st Hrun) as Hinv.
    exact (inv_prints _ _ _ Hinv).
  - exists (finish w init). unfold start. rewrite Hpro.
    edestruct (finish_exits w) as (st' & Hrun & Hm & _); [apply Inv_init |].
    rewrite Hrun. cbn [exit_status]. rewrite Hm. reflexivity.
Qed.

Lemma start_with_nop_logger_witness :
  exists sched, exit_status (start w_staging sched) = Some 1%Z.
Proof.
  apply (start_with_nop_logger w_staging "staging");
    [reflexivity | discriminate | discriminate].
Defined.

(** ** The order of what a run does *)

Lemma program_events_app (t1 t2 : list Event) :
  program_events (t1 ++ t2) = (program_events t1 ++ program_events t2)%list.
Proof. apply List.filter_app. Qed.

Lemma program_events_report (err : option error) :
  program_events (report err) = report err.
Proof. destruct err; reflexivity. Qed.

Lemma shape_step (w : World) (log : zap.Logger) (c : Choice) (st st' : State) :
  Inv w log st ->
  program_events (trace st) =
    (task_events log (taskPC st) ++ main_events log (mainPC st))%list ->
  step w log c st = Some st' ->
  program_events (trace st') =
    (task_events log (taskPC st') ++ main_events log (mainPC st'))%list.
Proof.
  intros Hinv Hshape Hstep. pose proof (inv_main _ _ _ Hinv) as Hm.
  destruct st as [m t cd tr]. cbn [trace taskPC mainPC cancelled] in *.
  destruct c; cbn [step trace taskPC mainPC cancelled] in Hstep.
  - destruct m; try discriminate; injection Hstep as <-;
      cbn [trace taskPC mainPC]; rewrite program_events_app;
      cbn [program_events List.filter isDelivered negb];
      rewrite app_nil_r; exact Hshape.
  - destruct m; try discriminate.
    + injection Hstep as <-. cbn [main_agrees] in Hm. subst t.
      cbn [trace taskPC mainPC]. rewrite program_events_app, Hshape.
      reflexivity.
    + destruct t; try discriminate. injection Hstep as <-. exact Hshape.
    + injection Hstep as <-. cbn [trace taskPC mainPC].
      rewrite program_events_app, Hshape. cbn [main_events].
      rewrite app_nil_r. reflexivity.
  - destruct t; try discriminate; injection Hstep as <-;
      cbn [trace taskPC mainPC];
      (destruct m; cbn [main_agrees] in Hm;
       [discriminate Hm | | destruct Hm; discriminate
        | destruct Hm; discriminate]);
      cbn [main_events] in *; rewrite ?app_nil_r in *.
    + exact Hshape.
    + rewrite program_events_app, Hshape.
      destruct (serverStop w); reflexivity.
    + rewrite program_events_app, Hshape. reflexivity.
Qed.

Lemma shape_run (w : World) (log : zap.Logger) (sched : list Choice) :
  forall st st',
    Inv w log st ->
    program_events (trace st) =
      (task_events log (taskPC st) ++ main_events log (mainPC st))%list ->
    run w log sched st = Some st' ->
    program_events (trace st') =
      (task_events log (taskPC st') ++ main_events log (mainPC st'))%list.
Proof.
  induction sched as [|c sched IH]; intros st st' Hinv Hshape Hrun;
    cbn [run] in Hrun.
  - injection Hrun as <-. exact Hshape.
  - destruct (step w log c st) as [st1|] eqn:Hstep; [|discriminate].
    apply (IH st1 st'); [eapply Inv_step | eapply shape_step |]; eauto.
Qed.

Lemma running_logger (w : World) (sched : list Choice)
    (out : list Event) (log : zap.Logger) (st : State) :
  start w sched = Some (Running out log st) ->
  exists l,
    fst (createLogger w (logEnv w)) = Some l /\
    log = zap.mkLogger (zap.profile l)
            (zap.context l ++ [zap.String "release" (release w)]).
Proof.
  unfold start, start_prologue. intros H.
  destruct (createLogger w (logEnv w)) as [[l|] err]; cbn in H.
  - destruct (run w _ sched init); [|discriminate].
    injection H as _ <- _. exists l. auto.
  - discriminate.
Qed.

(** X9. Apart from the signals it was sent, a run that has exited did the
    same things in the same order: it printed the error of [createLogger]
    if there was one, started the task, called [Stop], handed the logger the
    record of the error if [Stop] returned one, flushed the logger with
    [Sync] and exited. The logger of the record and of [Sync] is the one
    [createLogger] returned with the release field added last. *)
Theorem exited_run_events (w : World) (sched : list Choice) (c : Z) :
  exit_status (start w sched) = Some c ->
  exists l,
    fst (createLogger w (logEnv w)) = Some l /\
    let log := zap.mkLogger (zap.profile l)
                 (zap.context l ++ [zap.String "release" (release w)]) in
    program_events (events (start w sched)) =
      (report (snd (createLogger w (logEnv w))) ++
       [Go; StopCalled] ++
       match serverStop w with
       | Some err => [LogInfo log "Error stopping server" [zap.Error err]]
       | None => []
       end ++
       [Sync log; Exit (status (serverStop w))])%list.
Proof.
  intros Hc.
  destruct (exited_run _ _ _ Hc)
    as (out & log & st & Hst & Hinv & Hm & Ht & -> & _).
  destruct (start_running _ _ _ _ _ Hst) as (Hout & Hrun & _).
  destruct (running_logger _ _ _ _ _ Hst) as (l & Hl & Hlog).
  exists l. split; [exact Hl |]. cbv zeta. rewrite <- Hlog.
  rewrite Hst. cbn [events]. rewrite program_events_app.
  rewrite Hout, program_events_report. f_equal.
  rewrite (shape_run w log sched init st (Inv_init w log) eq_refl Hrun).
  rewrite Ht, Hm. destruct (serverStop w); reflexivity.
Qed.

Lemma exited_run_events_witness :
  exists l,
    fst (createLogger w_stop_fails (logEnv w_stop_fails)) = Some l /\
    program_events (events (start w_stop_fails
       [Deliver SIGINT; RunMain; RunTask; RunTask; Deliver SIGTERM; RunTask;
        RunMain; RunMain])) =
      [Go; StopCalled;
       LogInfo (zap.mkLogger (zap.profile l)
                  (zap.context l ++ [zap.String "release" "dev"]))
         "Error stopping server" [zap.Error "listener already closed"];
       Sync (zap.mkLogger (zap.profile l)
               (zap.context l ++ [zap.String "release" "dev"]));
       Exit 1].
Proof.
  apply (exited_run_events w_stop_fails
           [Deliver SIGINT; RunMain; RunTask; RunTask; Deliver SIGTERM;
            RunTask; RunMain; RunMain] 1%Z).
  reflexivity.
Defined.

(** ** Signals and the moves of the program *)

Lemma same_program_step (w : World) (log : zap.Logger) (c : Choice)
    (st1 st2 st1' : State) :
  same_program st1 st2 ->
  step w log c st1 = Some st1' ->
  if isDeliver c then same_program st1' st2
  else exists st2', step w log c st2 = Some st2' /\ same_program st1' st2'.
Proof.
  intros (Hm & Ht & Htr) Hstep.
  destruct st1 as [m t cd tr], st2 as [m2 t2 cd2 tr2].
  cbn [trace taskPC mainPC cancelled] in *. subst m2 t2 tr2.
  destruct c; cbn [isDeliver step trace taskPC mainPC cancelled] in *.
  - destruct m; try discriminate; injection Hstep as <-;
      unfold same_program; cbn [trace taskPC mainPC];
      rewrite program_events_app; cbn [program_events List.filter
        isDelivered negb]; rewrite app_nil_r; auto.
  - destruct m; try discriminate.
    + injection Hstep as <-. eexists. split; [reflexivity |].
      unfold same_program. cbn [trace taskPC mainPC].
      rewrite program_events_app. auto.
    + destruct t; try discriminate. injection Hstep as <-.
      eexists. split; [reflexivity |]. unfold same_program. auto.
    + injection Hstep as <-. eexists. split; [reflexivity |].
      unfold same_program. cbn [trace taskPC mainPC].
      rewrite program_events_app. auto.
  - destruct t; try discriminate; injection Hstep as <-;
      (eexists; split; [reflexivity |]);
      unfold same_program; cbn [trace taskPC mainPC];
      rewrite ?program_events_app; auto.
Qed.

Lemma same_program_run (w : World) (log : zap.Logger) (sched : list Choice) :
  forall st1 st2 st1',
    same_program st1 st2 ->
    run w log sched st1 = Some st1' ->
    exists st2',
      run w log (program_moves sched) st2 = Some st2' /\
      same_program st1' st2'.
Proof.
  induction sched as [|c sched IH]; intros st1 st2 st1' Hsame Hrun;
    cbn [run] in Hrun.
  - injection Hrun as <-. exists st2. split; [reflexivity | exact Hsame].
  - destruct (step w log c st1) as [st1m|] eqn:Hstep; [|discriminate].
    pose proof (same_program_step w log c st1 st2 st1m Hsame Hstep) as Hc.
    unfold program_moves. cbn [List.filter].
    destruct (isDeliver c); cbn [negb].
    + apply (IH st1m st2 st1' Hc Hrun).
    + destruct Hc as (st2m & Hstep2 & Hsame2). cbn [run]. rewrite Hstep2.
      apply (IH st1m st2m st1' Hsame2 Hrun).
Qed.

(** X10. While [signal.NotifyContext] is in force, that is from line 52 to
    the deferred [stop()], the deliveries of SIGTERM and SIGINT change
    nothing in what the program does: a schedule with its deliveries taken
    out is a schedule of the same program moves, it brings both flows to the
    same program points with the same events (the deliveries apart), and to
    the same exit status. A signal outside that window has its default
    action and is no delivery of a schedule. *)
Theorem signals_change_nothing (w : World) (sched : list Choice)
    (out : list Event) (log : zap.Logger) (st : State) :
  start w sched = Some (Running out log st) ->
  exists st',
    start w (program_moves sched) = Some (Running out log st') /\
    mainPC st' = mainPC st /\ taskPC st' = taskPC st /\
    trace st' = program_events (trace st) /\
    exit_status (start w (program_moves sched)) =
      exit_status (start w sched).
Proof.
  intros Hst. pose proof Hst as Hst0. unfold start in Hst.
  destruct (start_prologue w) as [out' [[log' s]|msg]] eqn:Hpro;
    [|discriminate].
  destruct (run w log' sched init) as [st0|] eqn:Hrun; [|discriminate].
  injection Hst as <- <- <-.
  destruct (same_program_run w log' sched init init st0) as (st' & Hrun' & Hs);
    [repeat split | exact Hrun |].
  destruct Hs as (Hm & Ht & Htr).
  assert (Hst' : start w (program_moves sched) = Some (Running out' log' st')).
  { unfold start. rewrite Hpro, Hrun'. reflexivity. }
  exists st'. repeat split; try assumption.
  rewrite Hst', Hst0. cbn [exit_status]. rewrite Hm. reflexivity.
Qed.

Lemma signals_change_nothing_witness :
  exists st',
    start w_default (program_moves two_signals) =
      Some (Running []
              (zap.mkLogger zap.Development [zap.String "release" "dev"]) st') /\
    mainPC st' = Exited 0 /\ taskPC st' = Returned None /\
    trace st' =
      program_events
        [Delivered SIGINT; Go; Delivered SIGTERM; StopCalled;
         Sync (zap.mkLogger zap.Development [zap.String "release" "dev"]);
         Exit 0] /\
    exit_status (start w_default (program_moves two_signals)) =
      exit_status (start w_default two_signals).
Proof.
  apply (signals_change_nothing w_default two_signals []
           (zap.mkLogger zap.Development [zap.String "release" "dev"])
           (mkState (Exited 0) (Returned None) true
              [Delivered SIGINT; Go; Delivered SIGTERM; StopCalled;
               Sync (zap.mkLogger zap.Development
                       [zap.String "release" "dev"]);
               Exit 0])).
  reflexivity.
Defined.

Lemma finish_program_moves (w : World) (st : State) :
  program_moves (finish w st) = finish w st.
Proof.
  unfold finish, task_rest.
  destruct (mainPC st), (taskPC st), (serverStop w); reflexivity.
Qed.

(** X11. The exit does not wait for a signal: from wherever a run has got
    to, moves of the program alone, with no delivery among them, bring it to
    [os.Exit] with the status of what [Stop] returns. *)
Theorem exit_needs_no_signal (w : World) (sched : list Choice)
    (out : list Event) (log : zap.Logger) (st : State) :
  start w sched = Some (Running out log st) ->
  exists rest,
    program_moves rest = rest /\
    exit_status (start w (sched ++ rest)) = Some (status (serverStop w)).
Proof.
  intros Hst. destruct (start_running _ _ _ _ _ Hst) as (_ & Hrun & Hinv).
  destruct (finish_exits w log st Hinv) as (st' & Hrun' & Hm & _).
  exists (finish w st). split; [apply finish_program_moves |].
  unfold start in *.
  destruct (start_prologue w) as [out' [[log' s]|msg]]; [|discriminate].
  destruct (run w log' sched init) as [st0|] eqn:Hrun0; [|discriminate].
  injection Hst as <- <- <-.
  rewrite run_app, Hrun0, Hrun'. cbn [exit_status]. rewrite Hm. reflexivity.
Qed.

Lemma exit_needs_no_signal_witness :
  exists rest,
    program_moves rest = rest /\
    exit_status (start w_stop_fails ([RunMain; RunTask] ++ rest)) = Some 1%Z.
Proof.
  apply (exit_needs_no_signal w_stop_fails [RunMain; RunTask] []
           (zap.mkLogger zap.Development [zap.String "release" "dev"])
           (mkState AtWait AtStop false [Go])).
  reflexivity.
Defined.

(** ** The end of a run *)

Lemma moves_left_step (w : World) (log : zap.Logger) (c : Choice)
    (st st' : State) :
  Inv w log st ->
  step w log c st = Some st' ->
  (moves_left st' + (if isDeliver c then 0 else 1) <= moves_left st)%nat.
Proof.
  intros Hinv Hstep. pose proof (inv_main _ _ _ Hinv) as Hm.
  destruct st as [m t cd tr]. cbn [trace taskPC mainPC cancelled] in *.
  unfold moves_left.
  destruct c; cbn [isDeliver step trace taskPC mainPC cancelled] in *.
  - destruct m; try discriminate; injection Hstep as <-;
      cbn [mainPC taskPC]; lia.
  - destruct m; try discriminate.
    + injection Hstep as <-. cbn. lia.
    + destruct t; try discriminate. injection Hstep as <-. cbn. lia.
    + injection Hstep as <-. cbn [mainPC taskPC]. lia.
  - destruct t; try discriminate; injection Hstep as <-;
      (destruct m; cbn [main_agrees] in Hm;
       [discriminate Hm | | destruct Hm; discriminate
        | destruct Hm; discriminate]);
      cbn [mainPC taskPC task_left]; try lia.
    destruct (serverStop w); cbn [task_left]; lia.
Qed.

Lemma moves_left_run (w : World) (log : zap.Logger) (sched : list Choice) :
  forall st st',
    Inv w log st ->
    run w log sched st = Some st' ->
    (moves_left st' + length (program_moves sched) <= moves_left st)%nat.
Proof.
  induction sched as [|c sched IH]; intros st st' Hinv Hrun; cbn [run] in Hrun.
  - injection Hrun as <-. cbn. lia.
  - destruct (step w log c st) as [st1|] eqn:Hstep; [|discriminate].
    pose proof (moves_left_step w log c st st1 Hinv Hstep) as H1.
    pose proof (IH st1 st' (Inv_step w log c st st1 Hinv Hstep) Hrun) as H2.
    unfold program_moves in *. cbn [List.filter].
    destruct (isDeliver c); cbn [negb length] in *; lia.
Qed.

(** X12. A run is short and then over: the program makes at most six moves
    in any run, however many signals are delivered in between, and once
    [os.Exit] has run no move and no delivery is possible any more. *)
Theorem run_is_bounded (w : World) (sched : list Choice)
    (out : list Event) (log : zap.Logger) (st : State) :
  start w sched = Some (Running out log st) ->
  (length (program_moves sched) <= 6)%nat /\
  (forall code c, mainPC st = Exited code -> start w (sched ++ [c]) = None).
Proof.
  intros Hst. destruct (start_running _ _ _ _ _ Hst) as (_ & Hrun & Hinv).
  split.
  - pose proof (moves_left_run w log sched init st (Inv_init w log) Hrun) as H.
    cbn in H. lia.
  - intros code c Hm. pose proof (inv_main _ _ _ Hinv) as Hmain.
    rewrite Hm in Hmain. destruct Hmain as [Ht _].
    unfold start in *.
    destruct (start_prologue w) as [out' [[log' s]|msg]]; [|discriminate].
    destruct (run w log' sched init) as [st0|] eqn:Hrun0; [|discriminate].
    injection Hst as <- <- <-.
    rewrite run_app, Hrun0. cbn [run].
    assert (Hstep : step w log' c st0 = None).
    { unfold step. rewrite Hm, Ht. destruct c; reflexivity. }
    rewrite Hstep. reflexivity.
Qed.

Lemma run_is_bounded_witness :
  (length (program_moves two_signals) <= 6)%nat /\
  start w_default (two_signals ++ [Deliver SIGTERM]) = None.
Proof.
  pose proof (run_is_bounded w_default two_signals []
           (zap.mkLogger zap.Development [zap.String "release" "dev"])
           (mkState (Exited 0) (Returned None) true
              [Delivered SIGINT; Go; Delivered SIGTERM; StopCalled;
               Sync (zap.mkLogger zap.Development
                       [zap.String "release" "dev"]);
               Exit 0]) eq_refl) as [H1 H2].
  split; [exact H1 | apply (H2 0%Z (Deliver SIGTERM)); reflexivity].
Defined.
